(** * Lowering of special functions for Bifrost (src/panfrost/bifrost/bi_special.c)

    A shallow embedding of [bi_emit_fexp2], [bi_emit_flog2] and
    [bi_emit_deriv]: each lowering is a state transformer on the compiler
    context that allocates temporaries and appends machine instructions to
    the current block. *)

From stdpp Require Import base numbers list sets.

Open Scope Z_scope.

(** ** Enumerations named by the lowerings

    The enumerations are declared in headers that accompany bi_special.c;
    the constructors below are the enumerators that bi_special.c names. *)

Inductive bi_class :=
| BI_ADD | BI_BITWISE | BI_CONVERT | BI_FMA | BI_FREXP | BI_IMATH
| BI_MOV | BI_REDUCE_FMA | BI_SPECIAL_ADD | BI_TABLE.

Inductive bi_special_op :=
| BI_SPECIAL_EXP2_LOW | BI_SPECIAL_CLPER_V6 | BI_SPECIAL_CLPER_V7.

Inductive bi_frexp_op := BI_FREXPE_LOG.
Inductive bi_reduce_op := BI_REDUCE_ADD_FREXPM.
Inductive bi_table_op := BI_TABLE_LOG2_U_OVER_U_1_LOW.
Inductive bi_bitwise_op := BI_BITWISE_AND.
Inductive bi_imath_op := BI_IMATH_ADD.

Inductive bi_round := BI_ROUND_NONE | BI_ROUND_RTZ.



Inductive bi_subgroup := BI_SUBGROUP_SUBGROUP4.
Inductive bi_lane_op := BI_LANE_OP_NONE.
Inductive bi_inactive_result := BI_INACTIVE_RESULT_ZERO.

(** The union [op] of [bi_instruction]: one constructor per member that the
    lowerings write. *)
Inductive bi_op :=
| op_mscale (b : bool)
| op_special (o : bi_special_op)
| op_frexp (o : bi_frexp_op)
| op_reduce (o : bi_reduce_op)
| op_table (o : bi_table_op)
| op_bitwise (o : bi_bitwise_op)
| op_imath (o : bi_imath_op).

Inductive nir_op := nir_op_fexp2 | nir_op_flog2 | nir_op_fddx | nir_op_fddy.

Definition nir_op_eqb (a b : nir_op) : bool :=
  match a, b with
  | nir_op_fexp2, nir_op_fexp2 | nir_op_flog2, nir_op_flog2
  | nir_op_fddx, nir_op_fddx | nir_op_fddy, nir_op_fddy => true
  | _, _ => false
  end.

(** ** Declarations of compiler.h and nir.h used by the lowerings

    bi_special.c takes these from compiler.h and the headers it includes.
    The index tags, the type codes, the IR reference types and the helpers
    that resolve them are parameters of the development; every statement
    below holds for all instances. *)

Class compiler_h := {
  nir_src : Type;
  nir_dest : Type;
  (* index tags of a source operand *)
  BIR_INDEX_CONSTANT : Z;
  BIR_INDEX_ZERO : Z;
  BIR_INDEX_FAU : Z;
  BIR_FAU_LANE_ID : Z;
  (* nir_alu_type codes *)
  nir_type_float : Z;
  nir_type_float32 : Z;
  nir_type_int32 : Z;
  nir_type_uint32 : Z;
  nir_type_uint8 : Z;
  (* components per swizzle row *)
  BI_MAX_VEC : nat;
  (* resolution of IR references *)
  pan_src_index : nir_src -> Z;
  pan_dest_index : nir_dest -> Z;
  nir_dest_bit_size : nir_dest -> Z;
  (* the handle that bi_make_temp builds from the temporary counter *)
  temp_index : Z -> Z
}.

(** Modelled from the spec: BI_MAX_SRCS, the number of source slots of an
    instruction, is declared in compiler.h; the data model gives an
    instruction one to four source operands, and the mscale initialiser
    fills four. *)
Definition BI_MAX_SRCS : nat := 4.

(** A fixed-size C array initialised from a brace list: the listed elements,
    then zeros. *)
Definition array {A} (n : nat) (zero : A) (xs : list A) : list A :=
  take n (xs ++ replicate n zero).

(** ** The ALU operation (nir_alu_instr), as far as the lowerings read it

    Arrays of the IR are read at index 0 only, and are functions of the
    index. *)

Record nir_alu_src `{compiler_h} := {
  alu_src : nir_src;              (* .src *)
  alu_swizzle : nat -> Z          (* .swizzle[i] *)
}.

Record nir_alu_dest `{compiler_h} := {
  alu_dest : nir_dest             (* .dest *)
}.

Record nir_alu_instr `{compiler_h} := {
  instr_op : nir_op;              (* ->op *)
  instr_dest : nir_alu_dest;      (* ->dest *)
  instr_src : nat -> nir_alu_src  (* ->src[i] *)
}.

(** ** Machine instructions (bi_instruction)

    Only the members that bi_special.c names are kept.  A member that an
    initialiser does not name is zero: [0], [false] or an array of zeros.
    For a member of enumeration or union type, whose numbering is declared
    outside bi_special.c, [None] stands for that zero. *)

Record bi_instruction := {
  type : option bi_class;
  op : option bi_op;
  dest : Z;
  dest_type : Z;
  src : list Z;                   (* [BI_MAX_SRCS] *)
  src_types : list Z;             (* [BI_MAX_SRCS] *)
  src_neg : list bool;            (* [BI_MAX_SRCS] *)
  constant : Z;                   (* .constant.u64 *)
  swizzle : list (list Z);        (* [BI_MAX_SRCS][BI_MAX_VEC] *)
  round : option bi_round;
  special_subgroup_sz : option bi_subgroup;           (* .special.subgroup_sz *)
  special_clper_lane_op_mod : option bi_lane_op;      (* .special.clper.lane_op_mod *)
  special_clper_inactive_res : option bi_inactive_result
                                                      (* .special.clper.inactive_res *)
}.

(** ** The compiler context (bi_context) *)

(** Modelled from the spec: bi_context is declared in compiler.h.  The
    context carries the architecture-version tag, the temporary-name counter
    and the current block, to which instructions are appended in order. *)
Record bi_context := {
  arch : Z;
  temp_alloc : Z;
  current_block : list bi_instruction
}.

(** Code that threads the context: a state transformer. *)
Definition builder (A : Type) : Type := bi_context -> A * bi_context.

#[global] Instance builder_ret : MRet builder := fun A a ctx => (a, ctx).

#[global] Instance builder_bind : MBind builder := fun A B k m ctx =>
  let (a, ctx') := m ctx in k a ctx'.

Definition get_arch : builder Z := fun ctx => (arch ctx, ctx).

Section Lowering.
Context `{H : compiler_h}.

Implicit Types (ctx : bi_context) (instr : nir_alu_instr) (ins : bi_instruction).

(** ** Designated initialisers *)

Definition zero_row : list Z := replicate BI_MAX_VEC 0.

Definition bi_instruction_zero : bi_instruction := {|
  type := None; op := None; dest := 0; dest_type := 0;
  src := replicate BI_MAX_SRCS 0;
  src_types := replicate BI_MAX_SRCS 0;
  src_neg := replicate BI_MAX_SRCS false;
  constant := 0;
  swizzle := replicate BI_MAX_SRCS zero_row;
  round := None;
  special_subgroup_sz := None;
  special_clper_lane_op_mod := None;
  special_clper_inactive_res := None
|}.

(** One designator of an initialiser [{ .member = value, ... }]. *)
Inductive designator :=
| d_type (v : bi_class)
| d_op (v : bi_op)
| d_dest (v : Z)
| d_dest_type (v : Z)
| d_src (v : list Z)                    (* .src = { ... } *)
| d_src_types (v : list Z)              (* .src_types = { ... } *)
| d_src_neg_at (s : nat) (v : bool)     (* .src_neg[s] = v *)
| d_constant_u64 (v : Z)                (* .constant.u64 = v *)
| d_swizzle (v : list (list Z))         (* .swizzle = { { ... }, ... } *)
| d_swizzle_at (s c : nat) (v : Z)      (* .swizzle[s][c] = v *)
| d_round (v : bi_round)
| d_special_subgroup_sz (v : bi_subgroup)
| d_special_clper_lane_op_mod (v : bi_lane_op)
| d_special_clper_inactive_res (v : bi_inactive_result).

Definition designate (ins : bi_instruction) (d : designator) : bi_instruction :=
  let '{| type := ty; op := o; dest := de; dest_type := dt; src := sr;
          src_types := st; src_neg := sn; constant := co; swizzle := sw;
          round := ro; special_subgroup_sz := sg;
          special_clper_lane_op_mod := lo;
          special_clper_inactive_res := ir |} := ins in
  let mk ty o de dt sr st sn co sw ro sg lo ir :=
    {| type := ty; op := o; dest := de; dest_type := dt; src := sr;
       src_types := st; src_neg := sn; constant := co; swizzle := sw;
       round := ro; special_subgroup_sz := sg;
       special_clper_lane_op_mod := lo;
       special_clper_inactive_res := ir |} in
  match d with
  | d_type v => mk (Some v) o de dt sr st sn co sw ro sg lo ir
  | d_op v => mk ty (Some v) de dt sr st sn co sw ro sg lo ir
  | d_dest v => mk ty o v dt sr st sn co sw ro sg lo ir
  | d_dest_type v => mk ty o de v sr st sn co sw ro sg lo ir
  | d_src v => mk ty o de dt (array BI_MAX_SRCS 0 v) st sn co sw ro sg lo ir
  | d_src_types v => mk ty o de dt sr (array BI_MAX_SRCS 0 v) sn co sw ro sg lo ir
  | d_src_neg_at s v => mk ty o de dt sr st (<[s := v]> sn) co sw ro sg lo ir
  | d_constant_u64 v => mk ty o de dt sr st sn v sw ro sg lo ir
  | d_swizzle v =>
      mk ty o de dt sr st sn co
         (array BI_MAX_SRCS zero_row (array BI_MAX_VEC 0 <$> v)) ro sg lo ir
  | d_swizzle_at s c v =>
      mk ty o de dt sr st sn co (alter (<[c := v]>) s sw) ro sg lo ir
  | d_round v => mk ty o de dt sr st sn co sw (Some v) sg lo ir
  | d_special_subgroup_sz v => mk ty o de dt sr st sn co sw ro (Some v) lo ir
  | d_special_clper_lane_op_mod v => mk ty o de dt sr st sn co sw ro sg (Some v) ir
  | d_special_clper_inactive_res v => mk ty o de dt sr st sn co sw ro sg lo (Some v)
  end.

(** [init ds] is the instruction that the initialiser [ds] denotes. *)
Definition init (ds : list designator) : bi_instruction :=
  foldl designate bi_instruction_zero ds.

(** ** The instruction builder *)

(** Modelled from the spec: bi_make_temp is defined in compiler.h.  It
    allocates a fresh temporary: the handle is built from the temporary
    counter of the context, and the counter advances. *)
Definition bi_make_temp : builder Z := fun ctx =>
  (temp_index (temp_alloc ctx),
   {| arch := arch ctx; temp_alloc := temp_alloc ctx + 1;
      current_block := current_block ctx |}).

(** Modelled from the spec: bi_emit is defined with the compiler.  It
    appends the instruction to the current block. *)
Definition bi_emit (ins : bi_instruction) : builder unit := fun ctx =>
  (tt,
   {| arch := arch ctx; temp_alloc := temp_alloc ctx;
      current_block := current_block ctx ++ [ins] |}).

(** ** bi_emit_fexp2_new *)

Definition bi_emit_fexp2_new (instr : nir_alu_instr) : builder unit :=
  (* FMA_MSCALE T, X, 1.0, 0, 0x18 *)
  t ← bi_make_temp;
  let mscale := init [
    d_type BI_FMA;
    d_op (op_mscale true);
    d_dest t;
    d_dest_type nir_type_float32;
    d_src [ pan_src_index (alu_src (instr_src instr 0%nat));
            Z.lor BIR_INDEX_CONSTANT 0;
            BIR_INDEX_ZERO;
            Z.lor BIR_INDEX_CONSTANT 32 ];
    d_src_types [ nir_type_float32; nir_type_float32; nir_type_float32;
                  nir_type_int32 ];
    d_constant_u64 (Z.lor 0x3f800000 (Z.shiftl 24 32));
    d_swizzle [ [ alu_swizzle (instr_src instr 0%nat) 0%nat ] ]
  ] in
  (* F2I_RTE T, T *)
  t ← bi_make_temp;
  let f2i := init [
    d_type BI_CONVERT;
    d_dest t;
    d_dest_type nir_type_int32;
    d_src [ dest mscale ];
    d_src_types [ nir_type_float32 ];
    d_round BI_ROUND_NONE
  ] in
  (* FEXP2_FAST T, T, X *)
  let fexp := init [
    d_type BI_SPECIAL_ADD;
    d_op (op_special BI_SPECIAL_EXP2_LOW);
    d_dest (pan_dest_index (alu_dest (instr_dest instr)));
    d_dest_type nir_type_float32;
    d_src [ dest f2i; src mscale !!! 0%nat ];
    d_src_types [ nir_type_int32; nir_type_float32 ];
    d_swizzle [ []; [ alu_swizzle (instr_src instr 0%nat) 0%nat ] ]
  ] in
  bi_emit mscale ;;
  bi_emit f2i ;;
  bi_emit fexp.

(** ** bi_emit_flog2_new *)

Definition bi_emit_flog2_new (instr : nir_alu_instr) : builder unit :=
  (* LOG_FREXPE X *)
  t ← bi_make_temp;
  let frexpe := init [
    d_type BI_FREXP;
    d_op (op_frexp BI_FREXPE_LOG);
    d_dest t;
    d_dest_type nir_type_int32;
    d_src [ pan_src_index (alu_src (instr_src instr 0%nat)) ];
    d_src_types [ nir_type_float32 ];
    d_swizzle [ [ alu_swizzle (instr_src instr 0%nat) 0%nat ] ]
  ] in
  (* I32_TO_F32 m *)
  t ← bi_make_temp;
  let i2f := init [
    d_type BI_CONVERT;
    d_dest t;
    d_dest_type nir_type_float32;
    d_src [ dest frexpe ];
    d_src_types [ nir_type_int32 ];
    d_round BI_ROUND_RTZ
  ] in
  (* ADD_FREXPM (x-1), -1.0, X *)
  t ← bi_make_temp;
  let x_minus_1 := init [
    d_type BI_REDUCE_FMA;
    d_op (op_reduce BI_REDUCE_ADD_FREXPM);
    d_dest t;
    d_dest_type nir_type_float32;
    d_src [ BIR_INDEX_CONSTANT;
            pan_src_index (alu_src (instr_src instr 0%nat)) ];
    d_src_types [ nir_type_float32; nir_type_float32 ];
    d_constant_u64 0xBF800000 (* -1.0 *);
    d_swizzle [ []; [ alu_swizzle (instr_src instr 0%nat) 0%nat ] ]
  ] in
  (* FLOG2_HELP log2(x)/(x-1), x *)
  t ← bi_make_temp;
  let help := init [
    d_type BI_TABLE;
    d_op (op_table BI_TABLE_LOG2_U_OVER_U_1_LOW);
    d_dest t;
    d_dest_type nir_type_float32;
    d_src [ pan_src_index (alu_src (instr_src instr 0%nat)) ];
    d_src_types [ nir_type_float32 ];
    d_swizzle [ [ alu_swizzle (instr_src instr 0%nat) 0%nat ] ]
  ] in
  (* FMA log2(x)/(x - 1), (x - 1), M *)
  let fma := init [
    d_type BI_FMA;
    d_dest (pan_dest_index (alu_dest (instr_dest instr)));
    d_dest_type nir_type_float32;
    d_src [ dest help; dest x_minus_1; dest i2f ];
    d_src_types [ nir_type_float32; nir_type_float32; nir_type_float32 ]
  ] in
  bi_emit frexpe ;;
  bi_emit i2f ;;
  bi_emit x_minus_1 ;;
  bi_emit help ;;
  bi_emit fma.

(** ** Entry points *)

Definition bi_emit_fexp2 (instr : nir_alu_instr) : builder unit :=
  (* TODO: G71 *)
  bi_emit_fexp2_new instr.

Definition bi_emit_flog2 (instr : nir_alu_instr) : builder unit :=
  (* TODO: G71 *)
  bi_emit_flog2_new instr.

Definition bi_emit_deriv (instr : nir_alu_instr) : builder unit :=
  t ← bi_make_temp;
  let cur_lane := init [
    d_type BI_MOV;
    d_dest t;
    d_dest_type nir_type_uint32;
    d_src [ Z.lor BIR_INDEX_FAU BIR_FAU_LANE_ID ];
    d_src_types [ nir_type_uint32 ]
  ] in
  t ← bi_make_temp;
  let lane1 := init [
    d_type BI_BITWISE;
    d_op (op_bitwise BI_BITWISE_AND);
    d_dest t;
    d_dest_type nir_type_uint32;
    d_src [ dest cur_lane; Z.lor BIR_INDEX_CONSTANT 0; BIR_INDEX_ZERO ];
    d_src_types [ nir_type_uint32; nir_type_uint32; nir_type_uint8 ];
    d_constant_u64 (if nir_op_eqb (instr_op instr) nir_op_fddx then 2 else 1)
  ] in
  t ← bi_make_temp;
  let lane2 := init [
    d_type BI_IMATH;
    d_op (op_imath BI_IMATH_ADD);
    d_dest t;
    d_dest_type nir_type_uint32;
    d_src [ dest lane1; Z.lor BIR_INDEX_CONSTANT 0; BIR_INDEX_ZERO ];
    d_src_types [ nir_type_uint32; nir_type_uint32; nir_type_uint32 ];
    d_constant_u64 (if nir_op_eqb (instr_op instr) nir_op_fddx then 1 else 2)
  ] in
  let src_ := pan_src_index (alu_src (instr_src instr 0%nat)) in
  a ← get_arch;
  t ← bi_make_temp;
  let clper1 := init [
    d_type BI_SPECIAL_ADD;
    d_op (op_special (if a =? 6 then BI_SPECIAL_CLPER_V6
                      else BI_SPECIAL_CLPER_V7));
    d_special_subgroup_sz BI_SUBGROUP_SUBGROUP4;
    d_special_clper_lane_op_mod BI_LANE_OP_NONE;
    d_special_clper_inactive_res BI_INACTIVE_RESULT_ZERO;
    d_dest t;
    d_dest_type nir_type_uint32;
    d_src [ src_; dest lane1 ];
    d_src_types [ nir_type_uint32; nir_type_uint32 ];
    d_swizzle_at 0 0 (alu_swizzle (instr_src instr 0%nat) 0%nat)
  ] in
  t ← bi_make_temp;
  let clper2 := init [
    d_type BI_SPECIAL_ADD;
    d_op (op_special (if a =? 6 then BI_SPECIAL_CLPER_V6
                      else BI_SPECIAL_CLPER_V7));
    d_special_subgroup_sz BI_SUBGROUP_SUBGROUP4;
    d_special_clper_lane_op_mod BI_LANE_OP_NONE;
    d_special_clper_inactive_res BI_INACTIVE_RESULT_ZERO;
    d_dest t;
    d_dest_type nir_type_uint32;
    d_src [ src_; dest lane2 ];
    d_src_types [ nir_type_uint32; nir_type_uint32 ];
    d_swizzle_at 0 0 (alu_swizzle (instr_src instr 0%nat) 0%nat)
  ] in
  let type_ := Z.lor nir_type_float
                     (nir_dest_bit_size (alu_dest (instr_dest instr))) in
  let sub := init [
    d_type BI_ADD;
    d_src [ dest clper2; dest clper1 ];
    d_src_types [ type_; type_ ];
    d_src_neg_at 1 true;
    d_dest (pan_dest_index (alu_dest (instr_dest instr)));
    d_dest_type type_
  ] in
  bi_emit cur_lane ;;
  bi_emit lane1 ;;
  bi_emit lane2 ;;
  bi_emit clper1 ;;
  bi_emit clper2 ;;
  bi_emit sub.

End Lowering.

(** ** A concrete header, to run the lowerings on concrete operations *)

Record sample_dest := { dest_index : Z; dest_bits : Z }.

#[local] Instance sample_h : compiler_h := {|
  nir_src := Z;
  nir_dest := sample_dest;
  BIR_INDEX_CONSTANT := Z.shiftl 1 29;
  BIR_INDEX_ZERO := Z.shiftl 1 28;
  BIR_INDEX_FAU := Z.shiftl 1 27;
  BIR_FAU_LANE_ID := 1;
  nir_type_float := 128;
  nir_type_float32 := 160;
  nir_type_int32 := 34;
  nir_type_uint32 := 36;
  nir_type_uint8 := 12;
  BI_MAX_VEC := 4;
  pan_src_index := fun s => Z.shiftl s 1;
  pan_dest_index := fun d => Z.shiftl (dest_index d) 1;
  nir_dest_bit_size := dest_bits;
  temp_index := fun n => Z.shiftl (16 + 1 + n) 1
|}.

Definition sample_instr (o : nir_op) : nir_alu_instr := {|
  instr_op := o;
  instr_dest := {| alu_dest := {| dest_index := 5; dest_bits := 32 |} |};
  instr_src := fun _ => {| alu_src := 3; alu_swizzle := fun _ => 2 |}
|}.

Definition sample_ctx (a : Z) : bi_context :=
  {| arch := a; temp_alloc := 0; current_block := [] |}.

(** ** What a lowering appended and allocated *)

Definition run (m : builder unit) (ctx : bi_context) : bi_context := (m ctx).2.

(** The instructions appended to the current block between two contexts. *)
Definition emitted (ctx ctx' : bi_context) : list bi_instruction :=
  drop (length (current_block ctx)) (current_block ctx').

Definition lowered (m : builder unit) (ctx : bi_context) : list bi_instruction :=
  emitted ctx (run m ctx).

Close Scope Z_scope.

Section Vocabulary.
Context `{H : compiler_h}.

Implicit Types (ctx : bi_context) (instr : nir_alu_instr) (ins : bi_instruction).

(** [reads e c s p]: in the sequence [e], source slot [s] of the instruction
    at position [c] is the destination of the instruction at the strictly
    earlier position [p]. *)
Definition reads (e : list bi_instruction) (c s p : nat) : Prop :=
  p < c ∧ ∃ ic ip, e !! c = Some ic ∧ e !! p = Some ip ∧
                   src ic !! s = Some (dest ip).

(** The IEEE-754 binary32 pattern of (-1)^s * (1 + m / 2^23) * 2^e. *)
Definition fp32_bits (s : bool) (e m : Z) : Z :=
  Z.lor (Z.shiftl (Z.b2z s) 31) (Z.lor (Z.shiftl (e + 127) 23) m).

(** The reading of the wiring scenario: the BI_TABLE instruction at step 4
    takes the destination of the BI_REDUCE_FMA instruction at step 3 as its
    source operand. *)
Definition table_reads_mantissa_minus_one instr ctx : Prop :=
  ∃ x_minus_1 help,
    lowered (bi_emit_flog2 instr) ctx !! 2 = Some x_minus_1 ∧
    lowered (bi_emit_flog2 instr) ctx !! 3 = Some help ∧
    type x_minus_1 = Some BI_REDUCE_FMA ∧
    type help = Some BI_TABLE ∧
    src help !! 0 = Some (dest x_minus_1).

(** [lane_steps instr ctx mask add]: the first three instructions of the
    derivative lowering of [instr] read the lane ID, AND it with the
    constant [mask], and add the constant [add] to the result. *)
Definition lane_steps instr ctx (mask add : Z) : Prop :=
  ∃ cur_lane lane1 lane2,
    lowered (bi_emit_deriv instr) ctx !! 0 = Some cur_lane ∧
    lowered (bi_emit_deriv instr) ctx !! 1 = Some lane1 ∧
    lowered (bi_emit_deriv instr) ctx !! 2 = Some lane2 ∧
    type cur_lane = Some BI_MOV ∧
    src cur_lane = [Z.lor BIR_INDEX_FAU BIR_FAU_LANE_ID; 0; 0; 0]%Z ∧
    type lane1 = Some BI_BITWISE ∧
    op lane1 = Some (op_bitwise BI_BITWISE_AND) ∧
    src lane1 = [dest cur_lane; Z.lor BIR_INDEX_CONSTANT 0;
                 BIR_INDEX_ZERO; 0%Z] ∧
    constant lane1 = mask ∧
    type lane2 = Some BI_IMATH ∧
    op lane2 = Some (op_imath BI_IMATH_ADD) ∧
    src lane2 = [dest lane1; Z.lor BIR_INDEX_CONSTANT 0;
                 BIR_INDEX_ZERO; 0%Z] ∧
    constant lane2 = add.

Definition is_clper_v6 ins : bool :=
  match op ins with Some (op_special BI_SPECIAL_CLPER_V6) => true | _ => false end.

Definition is_clper_v7 ins : bool :=
  match op ins with Some (op_special BI_SPECIAL_CLPER_V7) => true | _ => false end.

(** [clper_fields a ins]: [ins] is a cross-lane exchange for architecture
    [a], on quads, with zero for inactive lanes and no lane operation. *)
Definition clper_fields (a : Z) ins : Prop :=
  type ins = Some BI_SPECIAL_ADD ∧
  is_clper_v6 ins = (a =? 6)%Z ∧
  is_clper_v7 ins = negb (a =? 6)%Z ∧
  special_subgroup_sz ins = Some BI_SUBGROUP_SUBGROUP4 ∧
  special_clper_lane_op_mod ins = Some BI_LANE_OP_NONE ∧
  special_clper_inactive_res ins = Some BI_INACTIVE_RESULT_ZERO.

(** The sequence [e] with the constant payload cleared at the positions
    [ps]. *)
Definition clear_constants (ps : list nat) (e : list bi_instruction) :
    list bi_instruction :=
  imap (λ i ins, if bool_decide (i ∈ ps)
                 then designate ins (d_constant_u64 0) else ins) e.

Inductive lowering := Exponential | Logarithm | Derivative.

Definition lower_with (l : lowering) : nir_alu_instr → builder unit :=
  match l with
  | Exponential => bi_emit_fexp2
  | Logarithm => bi_emit_flog2
  | Derivative => bi_emit_deriv
  end.

(** The handles that [n] successive calls of bi_make_temp return, from the
    counter value [c]. *)
Fixpoint handles (c : Z) (n : nat) : list Z :=
  match n with
  | 0 => []
  | S k => temp_index c :: handles (c + 1) k
  end.

(** The temporaries allocated between two contexts. *)
Definition allocated ctx ctx' : list Z :=
  handles (temp_alloc ctx) (Z.to_nat (temp_alloc ctx' - temp_alloc ctx)).

(** The operand values that are not temporaries: the empty slot, the IR
    references of the operation and the sentinels that the lowerings
    write. *)
Definition reserved instr : list Z :=
  [ 0%Z;
    pan_src_index (alu_src (instr_src instr 0));
    pan_dest_index (alu_dest (instr_dest instr));
    BIR_INDEX_CONSTANT;
    Z.lor BIR_INDEX_CONSTANT 0;
    Z.lor BIR_INDEX_CONSTANT 32;
    BIR_INDEX_ZERO;
    Z.lor BIR_INDEX_FAU BIR_FAU_LANE_ID ].

(** The contract of the allocator: the handles are pairwise distinct and
    none is a value of another kind. *)
Definition fresh (temps : list Z) instr : Prop :=
  NoDup temps ∧ Forall (λ t, t ∉ reserved instr) temps.

Definition defined_before (e : list bi_instruction) (i : nat) (v : Z) : Prop :=
  ∃ j ins, j < i ∧ e !! j = Some ins ∧ dest ins = v.

(** Every temporary read by an instruction of [e] is the destination of a
    strictly earlier instruction of [e], and every temporary is the
    destination of exactly one instruction of [e]. *)
Definition single_assignment (temps : list Z) (e : list bi_instruction) : Prop :=
  (∀ i ins s, e !! i = Some ins → s ∈ src ins → s ∈ temps →
              defined_before e i s) ∧
  (∀ t, t ∈ temps →
        ∃ j, dest <$> e !! j = Some t ∧
             ∀ k, dest <$> e !! k = Some t → k = j).

(** Single assignment depends on the destination and the sources of each
    instruction only. *)
Definition wiring (e : list bi_instruction) : list (Z * list Z) :=
  (λ ins, (dest ins, src ins)) <$> e.

Definition wiring_single_assignment (temps : list Z) (w : list (Z * list Z)) :
    Prop :=
  (∀ i d ss s, w !! i = Some (d, ss) → s ∈ ss → s ∈ temps →
               ∃ j d' ss', j < i ∧ w !! j = Some (d', ss') ∧ d' = s) ∧
  (∀ t, t ∈ temps →
        ∃ j, fst <$> w !! j = Some t ∧
             ∀ k, fst <$> w !! k = Some t → k = j).

(** ** Further vocabulary *)






(** The number of temporaries a lowering allocates. *)
Definition temporaries (l : lowering) : nat :=
  match l with Exponential => 2 | Logarithm => 4 | Derivative => 5 end.

(** The destination and the source slots of an instruction. *)
Definition operands ins : list Z := dest ins :: src ins.

(** ** What a derivative sequence computes *)

(** The header keeps the lane-ID register, the constant at offset 0 and the
    zero index apart. *)
Definition sentinels_distinct : Prop :=
  NoDup [ Z.lor BIR_INDEX_FAU BIR_FAU_LANE_ID;
          Z.lor BIR_INDEX_CONSTANT 0;
          BIR_INDEX_ZERO ].

(** The binding of a handle, most recent first. *)
Fixpoint env_lookup {A} (env : list (Z * A)) (v : Z) : option A :=
  match env with
  | [] => None
  | (k, x) :: env' =>
      if bool_decide (k = v) then Some x else env_lookup env' v
  end.

(** The 32-bit value that source slot [s] of [ins] denotes in the lane
    [lane]: the value bound to a temporary, the lane ID for the lane-ID
    register, the low word of the constant payload for the constant at
    offset 0, zero for the zero index. *)
Definition operand_value (env : list (Z * Z)) (lane : Z) ins (s : nat) :
    option Z :=
  v ← src ins !! s;
  match env_lookup env v with
  | Some x => Some x
  | None =>
      if bool_decide (v = Z.lor BIR_INDEX_FAU BIR_FAU_LANE_ID) then Some lane
      else if bool_decide (v = Z.lor BIR_INDEX_CONSTANT 0)
           then Some (Z.land (constant ins) (Z.ones 32))
      else if bool_decide (v = BIR_INDEX_ZERO) then Some 0%Z
      else None
  end.

(** The value that a move, an AND or an addition writes; the AND and the
    addition are taken with a zero third operand, as the lowering emits
    them. *)
Definition lane_step (env : list (Z * Z)) (lane : Z) ins : option Z :=
  match type ins, op ins with
  | Some BI_MOV, None => operand_value env lane ins 0
  | Some BI_BITWISE, Some (op_bitwise BI_BITWISE_AND) =>
      x ← operand_value env lane ins 0;
      y ← operand_value env lane ins 1;
      z ← operand_value env lane ins 2;
      if bool_decide (z = 0%Z) then Some (Z.land x y) else None
  | Some BI_IMATH, Some (op_imath BI_IMATH_ADD) =>
      x ← operand_value env lane ins 0;
      y ← operand_value env lane ins 1;
      z ← operand_value env lane ins 2;
      if bool_decide (z = 0%Z) then Some ((x + y) mod 2 ^ 32)%Z else None
  | _, _ => None
  end.

(** [derivative_of env fetched lane e] follows the sequence [e] in the lane
    [lane].  [env] binds the temporaries of the lane arithmetic to their
    values; [fetched] binds the destination of a cross-lane exchange to the
    operand it fetches (first source) and the lane it fetches it from (the
    value of its second source).  The result is [Some (v, b, a)] when the
    sequence ends in an addition of two exchange results with only the
    second negated, both exchanges fetching the operand [v]: the sequence
    then computes [v] in lane [b] minus [v] in lane [a]. *)
Fixpoint derivative_of (env : list (Z * Z)) (fetched : list (Z * (Z * Z)))
    (lane : Z) (e : list bi_instruction) : option (Z * Z * Z) :=
  match e with
  | [] => None
  | ins :: e' =>
      match type ins with
      | Some BI_SPECIAL_ADD =>
          match op ins with
          | Some (op_special BI_SPECIAL_CLPER_V6)
          | Some (op_special BI_SPECIAL_CLPER_V7) =>
              v ← src ins !! 0;
              l ← operand_value env lane ins 1;
              derivative_of env ((dest ins, (v, l)) :: fetched) lane e'
          | _ => None
          end
      | Some BI_ADD =>
          match e', src_neg ins !! 0, src_neg ins !! 1 with
          | [], Some false, Some true =>
              x ← src ins !! 0;
              y ← src ins !! 1;
              fx ← env_lookup fetched x;
              fy ← env_lookup fetched y;
              if bool_decide (fx.1 = fy.1) then Some (fx.1, fx.2, fy.2)
              else None
          | _, _, _ => None
          end
      | _ =>
          x ← lane_step env lane ins;
          derivative_of ((dest ins, x) :: env) fetched lane e'
      end
  end.

End Vocabulary.

(** * Properties of the lowerings *)

Section Properties.
Context `{H : compiler_h}.

Implicit Types (ctx : bi_context) (instr : nir_alu_instr) (ins : bi_instruction).

Lemma emitted_app ctx a t (e : list bi_instruction) :
  emitted ctx {| arch := a; temp_alloc := t;
                 current_block := current_block ctx ++ e |} = e.
Proof. unfold emitted; cbn. apply drop_app_length. Qed.

(** Symbolic execution of a lowering from an arbitrary context. *)
Ltac lower :=
  unfold lowered, run, bi_emit_fexp2, bi_emit_flog2, bi_emit_fexp2_new,
    bi_emit_flog2_new, bi_emit_deriv, mbind, builder_bind, bi_make_temp,
    bi_emit, get_arch;
  cbn; rewrite <- ?app_assoc; cbn [app]; rewrite ?emitted_app.

(** *** Logarithm: what the table lookup reads *)

(** C1, as the code has it: in logarithm lowering, for every input, the
    table-lookup instruction (step 4, BI_TABLE) has one source operand, the
    resolved IR source of the logarithm with its first swizzle component;
    it is the operand that the mantissa-minus-one instruction (step 3,
    BI_REDUCE_FMA) reads in its second slot.  The result of step 3 is read
    by the final BI_FMA, in its second slot, next to the result of the table
    lookup in the first. *)
Theorem flog2_table_reads_input instr ctx :
  ∃ x_minus_1 help fma,
    lowered (bi_emit_flog2 instr) ctx !! 2 = Some x_minus_1 ∧
    lowered (bi_emit_flog2 instr) ctx !! 3 = Some help ∧
    lowered (bi_emit_flog2 instr) ctx !! 4 = Some fma ∧
    lowered (bi_emit_flog2 instr) ctx !! 5 = None ∧
    type x_minus_1 = Some BI_REDUCE_FMA ∧
    type help = Some BI_TABLE ∧
    type fma = Some BI_FMA ∧
    op help = Some (op_table BI_TABLE_LOG2_U_OVER_U_1_LOW) ∧
    src help = [pan_src_index (alu_src (instr_src instr 0)); 0; 0; 0]%Z ∧
    swizzle help !! 0 =
      Some (array BI_MAX_VEC 0%Z [alu_swizzle (instr_src instr 0) 0]) ∧
    src help !! 0 = src x_minus_1 !! 1 ∧
    src fma !! 0 = Some (dest help) ∧
    src fma !! 1 = Some (dest x_minus_1).
Proof. lower. do 3 eexists. repeat split; reflexivity. Qed.

(** Whenever the third handle differs from the resolved IR source, as the
    allocator contract demands, the table lookup does not read the result
    of step 3. *)
Lemma flog2_table_source_is_not_step3 instr ctx :
  temp_index (temp_alloc ctx + 1 + 1)%Z
    ≠ pan_src_index (alu_src (instr_src instr 0)) →
  ¬ table_reads_mantissa_minus_one instr ctx.
Proof.
  intros Hne (x_minus_1 & help & Hx & Hhelp & _ & _ & Hsrc).
  revert Hx Hhelp. lower. intros [= <-] [= <-].
  cbn in Hsrc. congruence.
Qed.

(** *** Exponential: the conversion's rounding *)


(** *** Sequence lengths and order *)

(** C3: for every ALU operation and every context, exponential lowering
    appends exactly 3 instructions, logarithm lowering exactly 5 and
    derivative lowering exactly 6 to the current block, each in its fixed
    order of instruction classes, every producer at an earlier position than
    its consumers. *)
Theorem lowering_lengths instr ctx :
  (let e := lowered (bi_emit_fexp2 instr) ctx in
   current_block (run (bi_emit_fexp2 instr) ctx) = current_block ctx ++ e ∧
   length e = 3 ∧
   type <$> e = [Some BI_FMA; Some BI_CONVERT; Some BI_SPECIAL_ADD] ∧
   reads e 1 0 0 ∧ reads e 2 0 1) ∧
  (let e := lowered (bi_emit_flog2 instr) ctx in
   current_block (run (bi_emit_flog2 instr) ctx) = current_block ctx ++ e ∧
   length e = 5 ∧
   type <$> e = [Some BI_FREXP; Some BI_CONVERT; Some BI_REDUCE_FMA;
                 Some BI_TABLE; Some BI_FMA] ∧
   reads e 1 0 0 ∧ reads e 4 0 3 ∧ reads e 4 1 2 ∧ reads e 4 2 1) ∧
  (let e := lowered (bi_emit_deriv instr) ctx in
   current_block (run (bi_emit_deriv instr) ctx) = current_block ctx ++ e ∧
   length e = 6 ∧
   type <$> e = [Some BI_MOV; Some BI_BITWISE; Some BI_IMATH;
                 Some BI_SPECIAL_ADD; Some BI_SPECIAL_ADD; Some BI_ADD] ∧
   reads e 1 0 0 ∧ reads e 2 0 1 ∧ reads e 3 1 1 ∧ reads e 4 1 2 ∧
   reads e 5 0 4 ∧ reads e 5 1 3).
Proof.
  cbv zeta. split; [|split]; lower; repeat apply conj;
    first [ reflexivity
          | apply Nat.ltb_lt; reflexivity
          | do 2 eexists; repeat split; reflexivity ].
Qed.

(** *** Logarithm: the final fused multiply-add *)

(** C4: in logarithm lowering, for every input, the source operands of the
    final BI_FMA are, in order, the destinations of the table lookup, of the
    mantissa-minus-one instruction and of the exponent-to-float conversion
    (the fourth slot is empty), and the instruction names no rounding mode,
    sets no negate flag and has a zero constant payload. *)
Theorem flog2_fma_operands instr ctx :
  ∃ i2f x_minus_1 help fma,
    lowered (bi_emit_flog2 instr) ctx !! 1 = Some i2f ∧
    lowered (bi_emit_flog2 instr) ctx !! 2 = Some x_minus_1 ∧
    lowered (bi_emit_flog2 instr) ctx !! 3 = Some help ∧
    lowered (bi_emit_flog2 instr) ctx !! 4 = Some fma ∧
    lowered (bi_emit_flog2 instr) ctx !! 5 = None ∧
    type i2f = Some BI_CONVERT ∧
    type x_minus_1 = Some BI_REDUCE_FMA ∧
    type help = Some BI_TABLE ∧
    type fma = Some BI_FMA ∧
    src fma = [dest help; dest x_minus_1; dest i2f; 0%Z] ∧
    op fma = None ∧
    round fma = None ∧
    src_neg fma = [false; false; false; false] ∧
    constant fma = 0%Z.
Proof. lower. do 4 eexists. repeat split; reflexivity. Qed.

(** *** Exponential: the constant payload of mscale *)

(** C5: in exponential lowering, the constant payload of the mscale
    instruction is 0x3f800000 | (24 << 32), a 64-bit value whose bits 0-31
    are the binary32 pattern of 1.0 and whose bits 32-63 are the shift
    amount 24; the two parts have no bit in common.  The second source reads
    the payload at bit 0 as a float32 and the fourth at bit 32 as an
    int32. *)
Theorem fexp2_mscale_constant instr ctx :
  ∃ mscale,
    lowered (bi_emit_fexp2 instr) ctx !! 0 = Some mscale ∧
    type mscale = Some BI_FMA ∧
    op mscale = Some (op_mscale true) ∧
    constant mscale = Z.lor 0x3f800000 (Z.shiftl 24 32) ∧
    (0 ≤ constant mscale < 2 ^ 64)%Z ∧
    Z.land (constant mscale) (Z.ones 32) = fp32_bits false 0 0 ∧
    fp32_bits false 0 0 = 0x3f800000%Z ∧
    Z.shiftr (constant mscale) 32 = 24%Z ∧
    Z.land 0x3f800000 (Z.shiftl 24 32) = 0%Z ∧
    src mscale !! 1 = Some (Z.lor BIR_INDEX_CONSTANT 0) ∧
    src_types mscale !! 1 = Some nir_type_float32 ∧
    src mscale !! 3 = Some (Z.lor BIR_INDEX_CONSTANT 32) ∧
    src_types mscale !! 3 = Some nir_type_int32.
Proof.
  lower. eexists. repeat split; try reflexivity; cbn [constant]; by vm_compute.
Qed.

(** *** Derivatives: lane arithmetic *)

(** C6: in derivative lowering, for every destination, source and context,
    the second instruction ANDs the lane ID (the destination of the first
    instruction, a move of the lane-ID register) with the constant 2 for
    fddx and 1 for fddy, and the third instruction adds the constant 1 for
    fddx and 2 for fddy to the result of the second. *)
Theorem deriv_lane_constants (d : nir_alu_dest) (s : nat → nir_alu_src) ctx :
  lane_steps {| instr_op := nir_op_fddx; instr_dest := d; instr_src := s |}
             ctx 2 1 ∧
  lane_steps {| instr_op := nir_op_fddy; instr_dest := d; instr_src := s |}
             ctx 1 2.
Proof.
  unfold lane_steps. split; lower; do 3 eexists; repeat split; reflexivity.
Qed.

(** *** Derivatives: the subtraction *)

(** C7: in derivative lowering, the final instruction is a BI_ADD whose
    first source is the destination of the second cross-lane exchange (step
    5) and whose second source, with the negate flag set, is the destination
    of the first (step 4); only the second source is negated, and the source
    types and the destination type are nir_type_float | bit-size of the
    destination.  The six classes emitted contain no separate negation. *)
Theorem deriv_subtract instr ctx :
  ∃ clper1 clper2 sub,
    lowered (bi_emit_deriv instr) ctx !! 3 = Some clper1 ∧
    lowered (bi_emit_deriv instr) ctx !! 4 = Some clper2 ∧
    lowered (bi_emit_deriv instr) ctx !! 5 = Some sub ∧
    lowered (bi_emit_deriv instr) ctx !! 6 = None ∧
    type <$> lowered (bi_emit_deriv instr) ctx =
      [Some BI_MOV; Some BI_BITWISE; Some BI_IMATH;
       Some BI_SPECIAL_ADD; Some BI_SPECIAL_ADD; Some BI_ADD] ∧
    op sub = None ∧
    dest sub = pan_dest_index (alu_dest (instr_dest instr)) ∧
    src sub = [dest clper2; dest clper1; 0%Z; 0%Z] ∧
    src_neg sub = [false; true; false; false] ∧
    src_types sub =
      [Z.lor nir_type_float (nir_dest_bit_size (alu_dest (instr_dest instr)));
       Z.lor nir_type_float (nir_dest_bit_size (alu_dest (instr_dest instr)));
       0%Z; 0%Z] ∧
    dest_type sub =
      Z.lor nir_type_float (nir_dest_bit_size (alu_dest (instr_dest instr))).
Proof. lower. do 3 eexists. repeat split; reflexivity. Qed.

(** *** Derivatives: the cross-lane exchanges *)

(** C8: in derivative lowering, the fourth and the fifth instruction are
    cross-lane exchanges whose sub-opcode is BI_SPECIAL_CLPER_V6 exactly when
    the architecture of the context is 6 and BI_SPECIAL_CLPER_V7 otherwise;
    both name the subgroup size SUBGROUP4, the inactive result ZERO and the
    lane operation NONE. *)
Theorem deriv_clper_variant instr ctx :
  ∃ clper1 clper2,
    lowered (bi_emit_deriv instr) ctx !! 3 = Some clper1 ∧
    lowered (bi_emit_deriv instr) ctx !! 4 = Some clper2 ∧
    clper_fields (arch ctx) clper1 ∧
    clper_fields (arch ctx) clper2.
Proof.
  lower. unfold clper_fields, is_clper_v6, is_clper_v7.
  destruct (arch ctx =? 6)%Z; do 2 eexists; repeat split; reflexivity.
Qed.

(** *** Derivatives: what the direction changes *)

(** C10: for every destination, source and context, the sequences that
    derivative lowering emits for fddx and for fddy have six instructions
    each and agree in every member of every instruction once the constant
    payloads of the second and the third instruction are set aside; the
    temporary counter and the architecture tag of the resulting contexts
    agree as well. *)
Theorem deriv_direction_frame (d : nir_alu_dest) (s : nat → nir_alu_src) ctx :
  let x := {| instr_op := nir_op_fddx; instr_dest := d; instr_src := s |} in
  let y := {| instr_op := nir_op_fddy; instr_dest := d; instr_src := s |} in
  length (lowered (bi_emit_deriv x) ctx) = 6 ∧
  length (lowered (bi_emit_deriv y) ctx) = 6 ∧
  clear_constants [1; 2] (lowered (bi_emit_deriv x) ctx) =
    clear_constants [1; 2] (lowered (bi_emit_deriv y) ctx) ∧
  constant <$> lowered (bi_emit_deriv x) ctx = [0; 2; 1; 0; 0; 0]%Z ∧
  constant <$> lowered (bi_emit_deriv y) ctx = [0; 1; 2; 0; 0; 0]%Z ∧
  temp_alloc (run (bi_emit_deriv x) ctx) = temp_alloc (run (bi_emit_deriv y) ctx) ∧
  arch (run (bi_emit_deriv x) ctx) = arch (run (bi_emit_deriv y) ctx).
Proof. intros x y. subst x y. lower. repeat split; reflexivity. Qed.

(** *** Single assignment *)

Lemma allocated_handles ctx a t b (n : nat) :
  t = (temp_alloc ctx + Z.of_nat n)%Z →
  allocated ctx {| arch := a; temp_alloc := t; current_block := b |} =
  handles (temp_alloc ctx) n.
Proof.
  intros ->. unfold allocated; cbn. f_equal. lia.
Qed.

(** Splits the allocator contract into disequalities between handles and
    between a handle and a reserved value. *)
Ltac split_fresh Hf :=
  let Hnd := fresh "Hnd" in
  let Hres := fresh "Hres" in
  unfold fresh, reserved in Hf; cbn [handles] in Hf; destruct Hf as [Hnd Hres];
  repeat (apply NoDup_cons in Hnd as [? Hnd]);
  repeat (apply Forall_cons in Hres as [? Hres]);
  clear Hnd Hres;
  repeat match goal with
         | Hx : _ ∉ _ |- _ =>
             first [ apply not_elem_of_cons in Hx as [? Hx] | clear Hx ]
         end.

Lemma single_assignment_wiring temps e :
  wiring_single_assignment temps (wiring e) → single_assignment temps e.
Proof.
  unfold wiring. intros [Hreads Hone]. split.
  - intros i ins s Hi Hs Ht.
    destruct (Hreads i (dest ins) (src ins) s) as (j & d' & ss' & Hj & Hw & ->);
      [by rewrite list_lookup_fmap, Hi | done | done |].
    rewrite list_lookup_fmap in Hw.
    destruct (e !! j) as [ins'|] eqn:Hj'; [|done].
    exists j, ins'. by simplify_eq/=.
  - intros t Ht. destruct (Hone t Ht) as (j & Hj & Huniq).
    rewrite list_lookup_fmap, <- option_fmap_compose in Hj.
    exists j. split; [done|]. intros k Hk. apply Huniq.
    by rewrite list_lookup_fmap, <- option_fmap_compose.
Qed.

(** Names the producer of an operand among the first five positions. *)
Ltac find_producer :=
  let at_position j :=
    exists j; do 2 eexists;
    split; [apply Nat.ltb_lt; reflexivity | split; reflexivity] in
  first [ at_position 0 | at_position 1 | at_position 2
        | at_position 3 | at_position 4 ].

(** Position [j] holds the only instruction whose destination is the
    temporary at hand. *)
Ltac only_producer j :=
  exists j; split; [reflexivity |];
  let k := fresh "k" in
  let Hk := fresh "Hk" in
  intros k Hk; do 7 (try destruct k as [|k]);
  cbn [lookup list_lookup fmap option_fmap option_map fst] in Hk;
  first [ reflexivity | congruence ].

Ltac single_assignment_cases :=
  apply single_assignment_wiring; cbn [wiring fmap list_fmap dest src handles];
  split;
  [ intros i d ss s Hi Hs Ht;
    do 7 (try destruct i as [|i]); cbn [lookup list_lookup] in Hi;
    first [ discriminate Hi | injection Hi as <- <- ];
    repeat (apply elem_of_cons in Hs as [->|Hs]);
    try (by apply elem_of_nil in Hs);
    first [ find_producer
          | exfalso;
            repeat (apply elem_of_cons in Ht as [Ht|Ht]);
            try (by apply elem_of_nil in Ht); congruence ]
  | intros t Ht;
    repeat (apply elem_of_cons in Ht as [->|Ht]);
    try (by apply elem_of_nil in Ht);
    first [ only_producer 0 | only_producer 1 | only_producer 2
          | only_producer 3 | only_producer 4 ] ].

(** C9: for every lowering (exponential, logarithm, derivative), every ALU
    operation and every context from which the allocator returns fresh
    handles, each temporary allocated during the lowering that an emitted
    instruction reads is the destination of an instruction emitted strictly
    earlier in the same lowering, and each such temporary is the destination
    of exactly one emitted instruction. *)
Theorem lowerings_single_assignment l instr ctx :
  fresh (allocated ctx (run (lower_with l instr) ctx)) instr →
  single_assignment (allocated ctx (run (lower_with l instr) ctx))
                    (lowered (lower_with l instr) ctx).
Proof.
  destruct l; unfold lower_with, run at 1 2; lower; intros Hf.
  - rewrite (allocated_handles _ _ _ _ 2) in Hf |- * by lia.
    split_fresh Hf. single_assignment_cases.
  - rewrite (allocated_handles _ _ _ _ 4) in Hf |- * by lia.
    split_fresh Hf. single_assignment_cases.
  - rewrite (allocated_handles _ _ _ _ 5) in Hf |- * by lia.
    split_fresh Hf. single_assignment_cases.
Qed.

(** ** Further properties of the lowerings *)

(** *** Destinations and the temporary counter *)

(** Every lowering writes the temporaries it allocates, in allocation order,
    and then, in its last instruction, the IR destination of the operation;
    the temporary counter advances by the number of instructions less one
    and the architecture tag is left alone. *)
Theorem lowering_destinations l instr ctx :
  dest <$> lowered (lower_with l instr) ctx =
    allocated ctx (run (lower_with l instr) ctx)
    ++ [pan_dest_index (alu_dest (instr_dest instr))] ∧
  temp_alloc (run (lower_with l instr) ctx) =
    (temp_alloc ctx
     + Z.of_nat (length (lowered (lower_with l instr) ctx) - 1))%Z ∧
  arch (run (lower_with l instr) ctx) = arch ctx.
Proof.
  destruct l; unfold lower_with; lower.
  - rewrite (allocated_handles _ _ _ _ 2) by lia.
    repeat split; cbn; first [reflexivity | lia].
  - rewrite (allocated_handles _ _ _ _ 4) by lia.
    repeat split; cbn; first [reflexivity | lia].
  - rewrite (allocated_handles _ _ _ _ 5) by lia.
    repeat split; cbn; first [reflexivity | lia].
Qed.

(** *** What the emitted code depends on *)

Lemma fexp2_flog2_same_counter instr instr' ctx ctx' :
  temp_alloc ctx = temp_alloc ctx' →
  instr_dest instr = instr_dest instr' →
  instr_src instr 0 = instr_src instr' 0 →
  lowered (bi_emit_fexp2 instr) ctx = lowered (bi_emit_fexp2 instr') ctx' ∧
  lowered (bi_emit_flog2 instr) ctx = lowered (bi_emit_flog2 instr') ctx'.
Proof. intros Ht Hd Hs. lower. rewrite Ht, Hd, Hs. split; reflexivity. Qed.

(** The exponential and the logarithm sequences are functions of the
    temporary counter, of the destination and of the source of the
    operation: the opcode of the operation, the architecture tag and the
    instructions already in the block have no influence. *)
Theorem fexp2_flog2_context_independent
    (o o' : nir_op) (d : nir_alu_dest) (s : nat → nir_alu_src)
    (a a' t : Z) (b b' : list bi_instruction) :
  lowered (bi_emit_fexp2 {| instr_op := o; instr_dest := d; instr_src := s |})
          {| arch := a; temp_alloc := t; current_block := b |} =
  lowered (bi_emit_fexp2 {| instr_op := o'; instr_dest := d; instr_src := s |})
          {| arch := a'; temp_alloc := t; current_block := b' |} ∧
  lowered (bi_emit_flog2 {| instr_op := o; instr_dest := d; instr_src := s |})
          {| arch := a; temp_alloc := t; current_block := b |} =
  lowered (bi_emit_flog2 {| instr_op := o'; instr_dest := d; instr_src := s |})
          {| arch := a'; temp_alloc := t; current_block := b' |}.
Proof. by apply fexp2_flog2_same_counter. Qed.

(** Every architecture other than 6 gets the same derivative sequence, the
    one with the V7 exchange: from equal temporary counters, two contexts
    whose architecture tags both differ from 6 yield equal sequences. *)
Theorem deriv_arch_other_than_six instr ctx ctx' :
  temp_alloc ctx = temp_alloc ctx' →
  arch ctx ≠ 6%Z → arch ctx' ≠ 6%Z →
  lowered (bi_emit_deriv instr) ctx = lowered (bi_emit_deriv instr) ctx'.
Proof.
  intros Ht Ha Ha'. lower. rewrite Ht.
  apply Z.eqb_neq in Ha, Ha'. rewrite Ha, Ha'. reflexivity.
Qed.

(** The derivative lowering tests the opcode against nir_op_fddx only: an
    operation with any other opcode is lowered as nir_op_fddy is. *)
Theorem deriv_other_op_is_vertical
    (o : nir_op) (d : nir_alu_dest) (s : nat → nir_alu_src) ctx :
  o ≠ nir_op_fddx →
  lowered (bi_emit_deriv {| instr_op := o; instr_dest := d; instr_src := s |})
          ctx =
  lowered (bi_emit_deriv
             {| instr_op := nir_op_fddy; instr_dest := d; instr_src := s |})
          ctx.
Proof. intros Ho. destruct o; [lower; reflexivity.. | done | reflexivity]. Qed.

(** *** Types along the wires *)


(** *** Swizzles *)





(** *** Constant payloads *)

(** In the logarithm sequence only the mantissa-minus-one instruction has a
    constant payload: 0xBF800000, the binary32 pattern of -1.0, that is the
    pattern of 1.0 with the sign bit set, in the low 32 bits; its first
    source reads it at bit 0 as a float32.  In the exponential sequence only
    mscale has a payload. *)
Theorem lowering_constants instr ctx :
  constant <$> lowered (bi_emit_flog2 instr) ctx
    = [0; 0; 0xBF800000; 0; 0]%Z ∧
  fp32_bits true 0 0 = 0xBF800000%Z ∧
  Z.lxor (fp32_bits false 0 0) (Z.shiftl 1 31) = 0xBF800000%Z ∧
  (0 ≤ 0xBF800000 < 2 ^ 32)%Z ∧
  (∃ x_minus_1,
     lowered (bi_emit_flog2 instr) ctx !! 2 = Some x_minus_1 ∧
     src x_minus_1 !! 0 = Some BIR_INDEX_CONSTANT ∧
     src_types x_minus_1 !! 0 = Some nir_type_float32) ∧
  constant <$> lowered (bi_emit_fexp2 instr) ctx
    = [Z.lor 0x3f800000 (Z.shiftl 24 32); 0; 0]%Z.
Proof.
  lower. repeat split; try reflexivity; try (by vm_compute).
  eexists. repeat split; reflexivity.
Qed.

(** *** Operands *)

Ltac find_elem :=
  repeat first [ apply list_elem_of_here | apply list_elem_of_further ].

(** A lowering refers to nothing but its own temporaries, the two IR
    references of the operation, the sentinels and the empty slot: every
    destination and every source slot of every emitted instruction is one of
    those. *)
Theorem lowering_operands_closed l instr ctx :
  Forall (λ ins,
            Forall (λ v, v ∈ allocated ctx (run (lower_with l instr) ctx)
                             ++ reserved instr)
                   (operands ins))
         (lowered (lower_with l instr) ctx).
Proof.
  destruct l; unfold lower_with; lower.
  - rewrite (allocated_handles _ _ _ _ 2) by lia.
    unfold operands, reserved; cbn.
    repeat first [ apply Forall_cons; split | apply Forall_nil_2 ]; find_elem.
  - rewrite (allocated_handles _ _ _ _ 4) by lia.
    unfold operands, reserved; cbn.
    repeat first [ apply Forall_cons; split | apply Forall_nil_2 ]; find_elem.
  - rewrite (allocated_handles _ _ _ _ 5) by lia.
    unfold operands, reserved; cbn.
    repeat first [ apply Forall_cons; split | apply Forall_nil_2 ]; find_elem.
Qed.

(** *** Lowering one operation after another *)

Lemma run_bind (m1 m2 : builder unit) ctx :
  run (m1 ;; m2) ctx = run m2 (run m1 ctx).
Proof. unfold run, mbind, builder_bind. by destruct (m1 ctx). Qed.

Lemma lowering_run l instr ctx :
  run (lower_with l instr) ctx =
  {| arch := arch ctx;
     temp_alloc := temp_alloc ctx + Z.of_nat (temporaries l);
     current_block := current_block ctx ++ lowered (lower_with l instr) ctx |}.
Proof. destruct l; unfold lower_with; lower; f_equal; cbn; lia. Qed.

Lemma lowering_length l instr ctx :
  length (lowered (lower_with l instr) ctx) = S (temporaries l).
Proof. destruct l; unfold lower_with; lower; reflexivity. Qed.

Lemma handles_app (c : Z) (n m : nat) :
  handles c (n + m) = handles c n ++ handles (c + Z.of_nat n) m.
Proof.
  revert c. induction n as [|n IH]; intros c; cbn [handles Nat.add app].
  - f_equal. lia.
  - rewrite IH. do 3 f_equal. lia.
Qed.

Lemma allocated_app ctx ctx1 ctx2 :
  (temp_alloc ctx ≤ temp_alloc ctx1)%Z →
  (temp_alloc ctx1 ≤ temp_alloc ctx2)%Z →
  allocated ctx ctx2 = allocated ctx ctx1 ++ allocated ctx1 ctx2.
Proof.
  intros H1 H2. unfold allocated.
  replace (Z.to_nat (temp_alloc ctx2 - temp_alloc ctx))
    with (Z.to_nat (temp_alloc ctx1 - temp_alloc ctx)
          + Z.to_nat (temp_alloc ctx2 - temp_alloc ctx1)) by lia.
  rewrite handles_app. do 2 f_equal. lia.
Qed.

Lemma lowerings_compose_aux l1 l2 instr1 instr2 ctx :
  lowered (lower_with l1 instr1 ;; lower_with l2 instr2) ctx =
    lowered (lower_with l1 instr1) ctx
    ++ lowered (lower_with l2 instr2) (run (lower_with l1 instr1) ctx) ∧
  allocated ctx (run (lower_with l1 instr1 ;; lower_with l2 instr2) ctx) =
    allocated ctx (run (lower_with l1 instr1) ctx)
    ++ allocated (run (lower_with l1 instr1) ctx)
                 (run (lower_with l2 instr2) (run (lower_with l1 instr1) ctx)).
Proof.
  unfold lowered at 1. rewrite run_bind. split.
  - rewrite (lowering_run l2), (lowering_run l1).
    cbn [arch temp_alloc current_block].
    rewrite <- (lowering_run l1), <- app_assoc. apply emitted_app.
  - apply allocated_app.
    + rewrite (lowering_run l1). cbn [temp_alloc]. lia.
    + rewrite (lowering_run l2). cbn [temp_alloc]. lia.
Qed.

(** Lowering one operation and then another appends the sequence of the
    first followed by the sequence that the second yields from the context
    the first leaves; the temporaries of the pair are those of the first
    followed by those of the second, and the block holds what it held,
    then both sequences. *)
Theorem lowerings_compose l1 l2 instr1 instr2 ctx :
  run (lower_with l1 instr1 ;; lower_with l2 instr2) ctx =
    run (lower_with l2 instr2) (run (lower_with l1 instr1) ctx) ∧
  lowered (lower_with l1 instr1 ;; lower_with l2 instr2) ctx =
    lowered (lower_with l1 instr1) ctx
    ++ lowered (lower_with l2 instr2) (run (lower_with l1 instr1) ctx) ∧
  allocated ctx (run (lower_with l1 instr1 ;; lower_with l2 instr2) ctx) =
    allocated ctx (run (lower_with l1 instr1) ctx)
    ++ allocated (run (lower_with l1 instr1) ctx)
                 (run (lower_with l2 instr2) (run (lower_with l1 instr1) ctx)) ∧
  current_block (run (lower_with l1 instr1 ;; lower_with l2 instr2) ctx) =
    current_block ctx
    ++ lowered (lower_with l1 instr1 ;; lower_with l2 instr2) ctx ∧
  length (lowered (lower_with l1 instr1 ;; lower_with l2 instr2) ctx) =
    S (temporaries l1) + S (temporaries l2).
Proof.
  destruct (lowerings_compose_aux l1 l2 instr1 instr2 ctx) as [He Ha].
  split; [apply run_bind|]. split; [exact He|]. split; [exact Ha|]. split.
  - rewrite He, run_bind, (lowering_run l2), (lowering_run l1).
    cbn [current_block]. rewrite <- (lowering_run l1). by rewrite app_assoc.
  - by rewrite He, length_app, !lowering_length.
Qed.

(** *** Single assignment of two lowerings in a row *)

Lemma lowering_single_assignment_aux l instr ctx :
  fresh (allocated ctx (run (lower_with l instr) ctx)) instr →
  single_assignment (allocated ctx (run (lower_with l instr) ctx))
                    (lowered (lower_with l instr) ctx).
Proof.
  destruct l; unfold lower_with, run at 1 2; lower; intros Hf.
  - rewrite (allocated_handles _ _ _ _ 2) in Hf |- * by lia.
    split_fresh Hf. single_assignment_cases.
  - rewrite (allocated_handles _ _ _ _ 4) in Hf |- * by lia.
    split_fresh Hf. single_assignment_cases.
  - rewrite (allocated_handles _ _ _ _ 5) in Hf |- * by lia.
    split_fresh Hf. single_assignment_cases.
Qed.

Lemma lowering_operands_aux l instr ctx :
  Forall (λ ins,
            Forall (λ v, v ∈ allocated ctx (run (lower_with l instr) ctx)
                             ++ reserved instr)
                   (operands ins))
         (lowered (lower_with l instr) ctx).
Proof.
  destruct l; unfold lower_with; lower.
  - rewrite (allocated_handles _ _ _ _ 2) by lia.
    unfold operands, reserved; cbn.
    repeat first [ apply Forall_cons; split | apply Forall_nil_2 ]; find_elem.
  - rewrite (allocated_handles _ _ _ _ 4) by lia.
    unfold operands, reserved; cbn.
    repeat first [ apply Forall_cons; split | apply Forall_nil_2 ]; find_elem.
  - rewrite (allocated_handles _ _ _ _ 5) by lia.
    unfold operands, reserved; cbn.
    repeat first [ apply Forall_cons; split | apply Forall_nil_2 ]; find_elem.
Qed.

(** Two sequences in single-assignment form, neither of which mentions a
    temporary of the other, are in single-assignment form when
    concatenated. *)
Lemma single_assignment_app (t1 t2 : list Z) (e1 e2 : list bi_instruction) :
  single_assignment t1 e1 → single_assignment t2 e2 →
  Forall (λ ins, Forall (λ v, v ∉ t2) (operands ins)) e1 →
  Forall (λ ins, Forall (λ v, v ∉ t1) (operands ins)) e2 →
  single_assignment (t1 ++ t2) (e1 ++ e2).
Proof.
  intros [R1 U1] [R2 U2] F1 F2.
  rewrite Forall_forall in F1. rewrite Forall_forall in F2.
  assert (O1 : ∀ ins v, ins ∈ e1 → v ∈ operands ins → v ∉ t2).
  { intros ins v Hin Hv. specialize (F1 ins Hin). rewrite Forall_forall in F1.
    by apply F1. }
  assert (O2 : ∀ ins v, ins ∈ e2 → v ∈ operands ins → v ∉ t1).
  { intros ins v Hin Hv. specialize (F2 ins Hin). rewrite Forall_forall in F2.
    by apply F2. }
  clear F1 F2. split.
  - intros i ins s Hi Hs Ht.
    destruct (decide (i < length e1)) as [Hlt|Hge].
    + rewrite lookup_app_l in Hi by done.
      assert (s ∉ t2) as Hn2.
      { apply (O1 ins); [by eapply list_elem_of_lookup_2|].
        unfold operands. by apply list_elem_of_further. }
      apply elem_of_app in Ht as [Ht|Ht]; [|done].
      destruct (R1 i ins s Hi Hs Ht) as (j & ins' & Hj & Hl & Hd).
      exists j, ins'. split; [done|]. split; [|done].
      rewrite lookup_app_l; [done|]. by eapply lookup_lt_Some.
    + rewrite lookup_app_r in Hi by lia.
      assert (s ∉ t1) as Hn1.
      { apply (O2 ins); [by eapply list_elem_of_lookup_2|].
        unfold operands. by apply list_elem_of_further. }
      apply elem_of_app in Ht as [Ht|Ht]; [done|].
      destruct (R2 _ ins s Hi Hs Ht) as (j & ins' & Hj & Hl & Hd).
      exists (length e1 + j), ins'. split; [lia|]. split; [|done].
      rewrite lookup_app_r by lia.
      by replace (length e1 + j - length e1) with j by lia.
  - intros t Ht. apply elem_of_app in Ht as [Ht|Ht].
    + destruct (U1 t Ht) as (j & Hj & Hu). exists j. split.
      * destruct (e1 !! j) as [ins|] eqn:E; [|done].
        rewrite lookup_app_l by (by eapply lookup_lt_Some). by rewrite E.
      * intros k Hk. destruct (decide (k < length e1)) as [Hlt|Hge].
        -- rewrite lookup_app_l in Hk by done. by apply Hu.
        -- rewrite lookup_app_r in Hk by lia.
           destruct (e2 !! (k - length e1)) as [ins|] eqn:E; [|done].
           injection Hk as Hk. exfalso.
           apply (O2 ins t); [by eapply list_elem_of_lookup_2| |done].
           unfold operands. rewrite <- Hk. apply list_elem_of_here.
    + destruct (U2 t Ht) as (j & Hj & Hu). exists (length e1 + j). split.
      * rewrite lookup_app_r by lia.
        by replace (length e1 + j - length e1) with j by lia.
      * intros k Hk. destruct (decide (k < length e1)) as [Hlt|Hge].
        -- rewrite lookup_app_l in Hk by done.
           destruct (e1 !! k) as [ins|] eqn:E; [|done].
           injection Hk as Hk. exfalso.
           apply (O1 ins t); [by eapply list_elem_of_lookup_2| |done].
           unfold operands. rewrite <- Hk. apply list_elem_of_here.
        -- rewrite lookup_app_r in Hk by lia.
           specialize (Hu _ Hk). lia.
Qed.

Lemma fresh_app (t1 t2 : list Z) instr :
  fresh (t1 ++ t2) instr →
  fresh t1 instr ∧ fresh t2 instr ∧ (∀ v, v ∈ t1 → v ∉ t2).
Proof.
  unfold fresh. intros [(Hn1 & Hd & Hn2)%NoDup_app [Hr1 Hr2]%Forall_app].
  repeat split; assumption.
Qed.

(** When two operations are lowered one after the other and the allocator
    returns fresh handles throughout (pairwise distinct, none of them an IR
    reference of either operation, a sentinel or the empty slot), the block
    grows by a sequence in single-assignment form: every temporary that is
    read was written strictly earlier, and every temporary of the pair is
    written exactly once. *)
Theorem lowerings_seq_single_assignment l1 l2 instr1 instr2 ctx :
  fresh (allocated ctx
           (run (lower_with l1 instr1 ;; lower_with l2 instr2) ctx)) instr1 →
  fresh (allocated ctx
           (run (lower_with l1 instr1 ;; lower_with l2 instr2) ctx)) instr2 →
  single_assignment
    (allocated ctx (run (lower_with l1 instr1 ;; lower_with l2 instr2) ctx))
    (lowered (lower_with l1 instr1 ;; lower_with l2 instr2) ctx).
Proof.
  destruct (lowerings_compose_aux l1 l2 instr1 instr2 ctx) as [-> ->].
  intros (Hf11 & Hf21 & Hd)%fresh_app (Hf12 & Hf22 & _)%fresh_app.
  apply single_assignment_app.
  - by apply lowering_single_assignment_aux.
  - by apply lowering_single_assignment_aux.
  - eapply Forall_impl; [apply lowering_operands_aux|].
    intros ins Hins; cbn beta. eapply Forall_impl; [exact Hins|].
    intros v [Hv|Hv]%elem_of_app; cbn beta; [by apply Hd|].
    destruct Hf21 as [_ Hr]. rewrite Forall_forall in Hr.
    intros Hv2. by apply (Hr v Hv2).
  - eapply Forall_impl; [apply lowering_operands_aux|].
    intros ins Hins; cbn beta. eapply Forall_impl; [exact Hins|].
    intros v [Hv|Hv]%elem_of_app; cbn beta.
    + intros Hv1. by apply (Hd v Hv1).
    + destruct Hf12 as [_ Hr]. rewrite Forall_forall in Hr.
      intros Hv1. by apply (Hr v Hv1).
Qed.

(** *** The lanes that a derivative exchanges with *)

Lemma land_2_cases (lane : Z) :
  (0 ≤ lane)%Z → Z.land lane 2 = 0%Z ∨ Z.land lane 2 = 2%Z.
Proof.
  intros Hl. destruct lane as [|p|p]; [by left| |lia].
  destruct p as [[p|p|]|[p|p|]|]; cbn; auto.
Qed.

Lemma land_1_cases (lane : Z) :
  (0 ≤ lane)%Z → Z.land lane 1 = 0%Z ∨ Z.land lane 1 = 1%Z.
Proof.
  intros Hl. destruct lane as [|p|p]; [by left| |lia].
  destruct p as [p|p|]; cbn; auto.
Qed.

(** Runs the evaluator, deciding its tests from the disequalities at
    hand. *)
Ltac evaluate :=
  repeat
    (cbn [derivative_of lane_step operand_value env_lookup type op src dest
          src_neg constant lookup list_lookup mbind option_bind fst snd];
     first
       [ progress change (bool_decide (0%Z = 0%Z)) with true
       | rewrite bool_decide_eq_true_2 by reflexivity
       | rewrite bool_decide_eq_false_2 by congruence ]).

Lemma derivative_of_deriv (o : nir_op) (d : nir_alu_dest)
    (s : nat → nir_alu_src) ctx (lane : Z) :
  fresh (allocated ctx
           (run (bi_emit_deriv
                   {| instr_op := o; instr_dest := d; instr_src := s |}) ctx))
        {| instr_op := o; instr_dest := d; instr_src := s |} →
  sentinels_distinct →
  derivative_of [] [] lane
    (lowered (bi_emit_deriv
                {| instr_op := o; instr_dest := d; instr_src := s |}) ctx) =
  Some (pan_src_index (alu_src (s 0)),
        ((Z.land lane
            (Z.land (if nir_op_eqb o nir_op_fddx then 2 else 1) (Z.ones 32))
          + Z.land (if nir_op_eqb o nir_op_fddx then 1 else 2) (Z.ones 32))
         mod 2 ^ 32)%Z,
        Z.land lane
          (Z.land (if nir_op_eqb o nir_op_fddx then 2 else 1) (Z.ones 32))).
Proof.
  unfold run at 1. lower. intros Hf Hs.
  rewrite (allocated_handles _ _ _ _ 5) in Hf by lia.
  split_fresh Hf.
  unfold sentinels_distinct in Hs.
  repeat (apply NoDup_cons in Hs as [? Hs]).
  repeat match goal with
         | Hx : _ ∉ _ |- _ =>
             first [ apply not_elem_of_cons in Hx as [? Hx] | clear Hx ]
         end.
  clear Hs.
  destruct (arch ctx =? 6)%Z; evaluate; reflexivity.
Qed.

(** For every 32-bit lane ID, with fresh handles and a header that keeps
    its sentinels apart, the derivative sequence computes the source operand
    in one lane minus the source operand in another, and both lanes lie in
    the quad (0 to 3): for fddx the lanes a + 1 and a with a = lane & 2, for
    fddy the lanes a + 2 and a with a = lane & 1; the 32-bit addition does
    not wrap. *)
Theorem deriv_lanes_in_quad
    (d : nir_alu_dest) (s : nat → nir_alu_src) ctx (lane : Z) :
  fresh (allocated ctx
           (run (bi_emit_deriv
                   {| instr_op := nir_op_fddx; instr_dest := d;
                      instr_src := s |}) ctx))
        {| instr_op := nir_op_fddx; instr_dest := d; instr_src := s |} →
  sentinels_distinct →
  (0 ≤ lane < 2 ^ 32)%Z →
  (∃ a, derivative_of [] [] lane
          (lowered (bi_emit_deriv
             {| instr_op := nir_op_fddx; instr_dest := d; instr_src := s |})
             ctx) = Some (pan_src_index (alu_src (s 0)), (a + 1)%Z, a) ∧
        a = Z.land lane 2 ∧ (a = 0 ∨ a = 2)%Z) ∧
  (∃ a, derivative_of [] [] lane
          (lowered (bi_emit_deriv
             {| instr_op := nir_op_fddy; instr_dest := d; instr_src := s |})
             ctx) = Some (pan_src_index (alu_src (s 0)), (a + 2)%Z, a) ∧
        a = Z.land lane 1 ∧ (a = 0 ∨ a = 1)%Z).
Proof.
  intros Hf Hs [Hl _]. split.
  - rewrite (derivative_of_deriv nir_op_fddx d s ctx lane Hf Hs).
    exists (Z.land lane 2). split; [|split; [done | by apply land_2_cases]].
    cbn [nir_op_eqb]. change (Z.land 2 (Z.ones 32)) with 2%Z.
    change (Z.land 1 (Z.ones 32)) with 1%Z.
    by destruct (land_2_cases lane Hl) as [-> | ->].
  - rewrite (derivative_of_deriv nir_op_fddy d s ctx lane Hf Hs).
    exists (Z.land lane 1). split; [|split; [done | by apply land_1_cases]].
    cbn [nir_op_eqb]. change (Z.land 2 (Z.ones 32)) with 2%Z.
    change (Z.land 1 (Z.ones 32)) with 1%Z.
    by destruct (land_1_cases lane Hl) as [-> | ->].
Qed.

(** For a lane of the quad (lane ID 0 to 3), with fresh handles and a header
    that keeps its sentinels apart, the current lane is one of the two lanes
    whose source operands the derivative sequence subtracts, for either
    direction: the two lanes differ in bit 0 for fddx (horizontal
    neighbours) and in bit 1 for fddy (vertical neighbours). *)
Theorem deriv_lane_in_its_pair
    (d : nir_alu_dest) (s : nat → nir_alu_src) ctx (lane : Z) :
  fresh (allocated ctx
           (run (bi_emit_deriv
                   {| instr_op := nir_op_fddx; instr_dest := d;
                      instr_src := s |}) ctx))
        {| instr_op := nir_op_fddx; instr_dest := d; instr_src := s |} →
  sentinels_distinct →
  (0 ≤ lane < 4)%Z →
  (∃ a b, derivative_of [] [] lane
            (lowered (bi_emit_deriv
               {| instr_op := nir_op_fddx; instr_dest := d; instr_src := s |})
               ctx) = Some (pan_src_index (alu_src (s 0)), b, a) ∧
          (lane = a ∨ lane = b) ∧ Z.lxor a b = 1%Z) ∧
  (∃ a b, derivative_of [] [] lane
            (lowered (bi_emit_deriv
               {| instr_op := nir_op_fddy; instr_dest := d; instr_src := s |})
               ctx) = Some (pan_src_index (alu_src (s 0)), b, a) ∧
          (lane = a ∨ lane = b) ∧ Z.lxor a b = 2%Z).
Proof.
  intros Hf Hs Hl.
  rewrite (derivative_of_deriv nir_op_fddx d s ctx lane Hf Hs).
  rewrite (derivative_of_deriv nir_op_fddy d s ctx lane Hf Hs).
  assert (lane = 0 ∨ lane = 1 ∨ lane = 2 ∨ lane = 3)%Z as Hcases by lia.
  destruct Hcases as [-> | [-> | [-> | ->]]];
    (split; do 2 eexists; (split; [reflexivity|]); vm_compute; auto).
Qed.

End Properties.

(** * The lowerings on a concrete operation

    The sample header numbers IR values by twice their index and continues
    with the temporaries after sixteen IR values; the operation reads IR
    value 3 and writes IR value 5, a 32-bit float. *)

(** C1, as stated, fails on the sample operation: the table lookup reads
    handle 6, the IR source, while the mantissa-minus-one instruction writes
    handle 38. *)
Lemma flog2_table_reads_input_counterexample :
  ¬ table_reads_mantissa_minus_one (sample_instr nir_op_flog2) (sample_ctx 7).
Proof.
  intros (x_minus_1 & help & Hx & Hhelp & _ & _ & Hsrc).
  vm_compute in Hx, Hhelp.
  injection Hx as <-. injection Hhelp as <-.
  vm_compute in Hsrc. discriminate Hsrc.
Qed.

(** The allocator contract holds on the sample header, and the three
    lowerings of the sample operation are in single-assignment form. *)
Lemma lowerings_single_assignment_witness :
  (fresh (allocated (sample_ctx 7)
            (run (lower_with Exponential (sample_instr nir_op_fexp2))
                 (sample_ctx 7)))
         (sample_instr nir_op_fexp2) ∧
   single_assignment
     (allocated (sample_ctx 7)
        (run (lower_with Exponential (sample_instr nir_op_fexp2))
             (sample_ctx 7)))
     (lowered (lower_with Exponential (sample_instr nir_op_fexp2))
              (sample_ctx 7))) ∧
  (fresh (allocated (sample_ctx 6)
            (run (lower_with Derivative (sample_instr nir_op_fddx))
                 (sample_ctx 6)))
         (sample_instr nir_op_fddx) ∧
   single_assignment
     (allocated (sample_ctx 6)
        (run (lower_with Derivative (sample_instr nir_op_fddx))
             (sample_ctx 6)))
     (lowered (lower_with Derivative (sample_instr nir_op_fddx))
              (sample_ctx 6))).
Proof.
  assert (Hexp : fresh (allocated (sample_ctx 7)
            (run (lower_with Exponential (sample_instr nir_op_fexp2))
                 (sample_ctx 7)))
         (sample_instr nir_op_fexp2)).
  { unfold fresh. apply (bool_decide_unpack _). vm_compute. reflexivity. }
  assert (Hderiv : fresh (allocated (sample_ctx 6)
            (run (lower_with Derivative (sample_instr nir_op_fddx))
                 (sample_ctx 6)))
         (sample_instr nir_op_fddx)).
  { unfold fresh. apply (bool_decide_unpack _). vm_compute. reflexivity. }
  split; (split; [assumption |]).
  - exact (lowerings_single_assignment Exponential _ _ Hexp).
  - exact (lowerings_single_assignment Derivative _ _ Hderiv).
Defined.

(** Architectures 7 and 9 get the same derivative sequence. *)
Lemma deriv_arch_other_than_six_witness :
  temp_alloc (sample_ctx 7) = temp_alloc (sample_ctx 9) ∧
  arch (sample_ctx 7) ≠ 6%Z ∧ arch (sample_ctx 9) ≠ 6%Z ∧
  lowered (bi_emit_deriv (sample_instr nir_op_fddx)) (sample_ctx 7) =
  lowered (bi_emit_deriv (sample_instr nir_op_fddx)) (sample_ctx 9).
Proof.
  assert (H79 : temp_alloc (sample_ctx 7) = temp_alloc (sample_ctx 9))
    by reflexivity.
  assert (H7 : arch (sample_ctx 7) ≠ 6%Z) by (cbn; lia).
  assert (H9 : arch (sample_ctx 9) ≠ 6%Z) by (cbn; lia).
  split; [assumption|]. split; [assumption|]. split; [assumption|].
  exact (deriv_arch_other_than_six (sample_instr nir_op_fddx)
           (sample_ctx 7) (sample_ctx 9) H79 H7 H9).
Defined.

(** A derivative operation carrying the opcode nir_op_flog2 is lowered as
    nir_op_fddy is. *)
Lemma deriv_other_op_is_vertical_witness :
  nir_op_flog2 ≠ nir_op_fddx ∧
  lowered (bi_emit_deriv (sample_instr nir_op_flog2)) (sample_ctx 7) =
  lowered (bi_emit_deriv (sample_instr nir_op_fddy)) (sample_ctx 7).
Proof.
  assert (Hop : nir_op_flog2 ≠ nir_op_fddx) by discriminate.
  split; [assumption|].
  exact (deriv_other_op_is_vertical nir_op_flog2 _ _ (sample_ctx 7) Hop).
Defined.

(** The logarithm of the sample operation followed by its derivative: nine
    fresh handles, and a block in single-assignment form. *)
Lemma lowerings_seq_single_assignment_witness :
  fresh (allocated (sample_ctx 7)
           (run (lower_with Logarithm (sample_instr nir_op_flog2) ;;
                 lower_with Derivative (sample_instr nir_op_fddy))
                (sample_ctx 7)))
        (sample_instr nir_op_flog2) ∧
  fresh (allocated (sample_ctx 7)
           (run (lower_with Logarithm (sample_instr nir_op_flog2) ;;
                 lower_with Derivative (sample_instr nir_op_fddy))
                (sample_ctx 7)))
        (sample_instr nir_op_fddy) ∧
  single_assignment
    (allocated (sample_ctx 7)
       (run (lower_with Logarithm (sample_instr nir_op_flog2) ;;
             lower_with Derivative (sample_instr nir_op_fddy))
            (sample_ctx 7)))
    (lowered (lower_with Logarithm (sample_instr nir_op_flog2) ;;
              lower_with Derivative (sample_instr nir_op_fddy))
             (sample_ctx 7)).
Proof.
  assert (H1 : fresh (allocated (sample_ctx 7)
           (run (lower_with Logarithm (sample_instr nir_op_flog2) ;;
                 lower_with Derivative (sample_instr nir_op_fddy))
                (sample_ctx 7)))
        (sample_instr nir_op_flog2)).
  { unfold fresh. apply (bool_decide_unpack _). vm_compute. reflexivity. }
  assert (H2 : fresh (allocated (sample_ctx 7)
           (run (lower_with Logarithm (sample_instr nir_op_flog2) ;;
                 lower_with Derivative (sample_instr nir_op_fddy))
                (sample_ctx 7)))
        (sample_instr nir_op_fddy)).
  { unfold fresh. apply (bool_decide_unpack _). vm_compute. reflexivity. }
  split; [assumption|]. split; [assumption|].
  exact (lowerings_seq_single_assignment Logarithm Derivative _ _ _ H1 H2).
Defined.

(** Lane 5 of a wider group: the fddx sequence subtracts lane 0 from lane 1,
    the fddy sequence lane 1 from lane 3. *)
Lemma deriv_lanes_in_quad_witness :
  fresh (allocated (sample_ctx 7)
           (run (bi_emit_deriv
                   {| instr_op := nir_op_fddx;
                      instr_dest := instr_dest (sample_instr nir_op_fddx);
                      instr_src := instr_src (sample_instr nir_op_fddx) |})
                (sample_ctx 7)))
        {| instr_op := nir_op_fddx;
           instr_dest := instr_dest (sample_instr nir_op_fddx);
           instr_src := instr_src (sample_instr nir_op_fddx) |} ∧
  sentinels_distinct ∧
  (0 ≤ 5 < 2 ^ 32)%Z ∧
  (∃ a, derivative_of [] [] 5
          (lowered (bi_emit_deriv
             {| instr_op := nir_op_fddx;
                instr_dest := instr_dest (sample_instr nir_op_fddx);
                instr_src := instr_src (sample_instr nir_op_fddx) |})
             (sample_ctx 7)) = Some (6%Z, (a + 1)%Z, a) ∧
        a = Z.land 5 2 ∧ (a = 0 ∨ a = 2)%Z) ∧
  (∃ a, derivative_of [] [] 5
          (lowered (bi_emit_deriv
             {| instr_op := nir_op_fddy;
                instr_dest := instr_dest (sample_instr nir_op_fddx);
                instr_src := instr_src (sample_instr nir_op_fddx) |})
             (sample_ctx 7)) = Some (6%Z, (a + 2)%Z, a) ∧
        a = Z.land 5 1 ∧ (a = 0 ∨ a = 1)%Z).
Proof.
  assert (Hf : fresh (allocated (sample_ctx 7)
           (run (bi_emit_deriv
                   {| instr_op := nir_op_fddx;
                      instr_dest := instr_dest (sample_instr nir_op_fddx);
                      instr_src := instr_src (sample_instr nir_op_fddx) |})
                (sample_ctx 7)))
        {| instr_op := nir_op_fddx;
           instr_dest := instr_dest (sample_instr nir_op_fddx);
           instr_src := instr_src (sample_instr nir_op_fddx) |}).
  { unfold fresh. apply (bool_decide_unpack _). vm_compute. reflexivity. }
  assert (Hs : sentinels_distinct).
  { unfold sentinels_distinct. apply (bool_decide_unpack _).
    vm_compute. reflexivity. }
  assert (H5 : (0 ≤ 5 < 2 ^ 32)%Z) by lia.
  split; [assumption|]. split; [assumption|]. split; [assumption|].
  exact (deriv_lanes_in_quad _ _ (sample_ctx 7) 5%Z Hf Hs H5).
Defined.

(** Lane 3: the fddx sequence subtracts lane 2 from lane 3, the fddy
    sequence lane 1 from lane 3. *)
Lemma deriv_lane_in_its_pair_witness :
  fresh (allocated (sample_ctx 7)
           (run (bi_emit_deriv
                   {| instr_op := nir_op_fddx;
                      instr_dest := instr_dest (sample_instr nir_op_fddx);
                      instr_src := instr_src (sample_instr nir_op_fddx) |})
                (sample_ctx 7)))
        {| instr_op := nir_op_fddx;
           instr_dest := instr_dest (sample_instr nir_op_fddx);
           instr_src := instr_src (sample_instr nir_op_fddx) |} ∧
  sentinels_distinct ∧
  (0 ≤ 3 < 4)%Z ∧
  (∃ a b, derivative_of [] [] 3
            (lowered (bi_emit_deriv
               {| instr_op := nir_op_fddx;
                  instr_dest := instr_dest (sample_instr nir_op_fddx);
                  instr_src := instr_src (sample_instr nir_op_fddx) |})
               (sample_ctx 7)) = Some (6%Z, b, a) ∧
          (3%Z = a ∨ 3%Z = b) ∧ Z.lxor a b = 1%Z) ∧
  (∃ a b, derivative_of [] [] 3
            (lowered (bi_emit_deriv
               {| instr_op := nir_op_fddy;
                  instr_dest := instr_dest (sample_instr nir_op_fddx);
                  instr_src := instr_src (sample_instr nir_op_fddx) |})
               (sample_ctx 7)) = Some (6%Z, b, a) ∧
          (3%Z = a ∨ 3%Z = b) ∧ Z.lxor a b = 2%Z).
Proof.
  assert (Hf : fresh (allocated (sample_ctx 7)
           (run (bi_emit_deriv
                   {| instr_op := nir_op_fddx;
                      instr_dest := instr_dest (sample_instr nir_op_fddx);
                      instr_src := instr_src (sample_instr nir_op_fddx) |})
                (sample_ctx 7)))
        {| instr_op := nir_op_fddx;
           instr_dest := instr_dest (sample_instr nir_op_fddx);
           instr_src := instr_src (sample_instr nir_op_fddx) |}).
  { unfold fresh. apply (bool_decide_unpack _). vm_compute. reflexivity. }
  assert (Hs : sentinels_distinct).
  { unfold sentinels_distinct. apply (bool_decide_unpack _).
    vm_compute. reflexivity. }
  assert (H3 : (0 ≤ 3 < 4)%Z) by lia.
  split; [assumption|]. split; [assumption|]. split; [assumption|].
  exact (deriv_lane_in_its_pair _ _ (sample_ctx 7) 3%Z Hf Hs H3).
Defined.
